(** * The Result algebra of vize (src/primitives/result/index.ts)

    A shallow embedding of the TypeScript classes [Result], [Ok] and [Err]:
    instances live in a heap and are handled through references, user
    callbacks are computations that may read and extend the program state
    and may throw, and every method is a computation in a state-and-exception
    monad.  The asynchronous [FromPromise] is modelled on promises that
    settle. *)

From Stdlib Require Import ZArith String.
From stdpp Require Import base option numbers strings list.

(** ** Values *)

(** A reference to an instance of [Result]: its index in the heap. *)
Abbreviation loc := nat (only parsing).

(** The JavaScript values that the classes tell apart: [undefined] (also
    what an omitted argument is), instances of [Result], native [Error]
    objects, and ordinary data. *)
Inductive value : Type :=
| VUndefined
| VNull
| VBool (b : bool)
| VNum (n : Z)
| VStr (s : string)
| VSymbol (description : string)
| VError (message : string)   (* a native [Error] object *)
| VRes (l : loc).             (* an object that is [instanceof Result] *)

(** Modelled from the spec: the constant [EMPTY] (with its type [Empty]) is
    imported from the package root, which is not among the sources; the spec
    describes it as a unit-like sentinel placeholder, used when a Result
    carries no meaningful payload.  It is taken to be a value of its own,
    distinct from [undefined] and from every other payload in use: a unique
    symbol. *)
Definition EMPTY : value := VSymbol "EMPTY".

(** The two concrete classes, [Ok] with its field [_value] and [Err] with its
    field [_error]. *)
Inductive instance : Type :=
| Ok (_value : value)
| Err (_error : value).

#[global] Instance value_eq_dec : EqDecision value.
Proof. solve_decision. Defined.

#[global] Instance instance_eq_dec : EqDecision instance.
Proof. solve_decision. Defined.

(** [x !== undefined] *)
Definition is_undefined (x : value) : bool :=
  match x with VUndefined => true | _ => false end.

(** [x instanceof Ok], [x instanceof Err] on an object of the heap. *)
Definition instanceof_Ok (o : instance) : bool :=
  match o with Ok _ => true | Err _ => false end.

Definition instanceof_Err (o : instance) : bool :=
  match o with Err _ => true | Ok _ => false end.

(** ** Program state and the monad of computations *)

(** The heap holds the Result instances in allocation order; [log] stands for
    whatever else of the program's state a callback may touch (a console, a
    metrics counter). *)
Record state : Type := State { heap : list instance; log : list value }.

Inductive outcome (A : Type) : Type :=
| Ret (a : A)
| Throw (t : value).
Arguments Ret {A} a.
Arguments Throw {A} t.

Definition js (A : Type) : Type := state -> outcome A * state.

Definition ret {A} (a : A) : js A := fun s => (Ret a, s).

Definition throw {A} (t : value) : js A := fun s => (Throw t, s).

Definition bind {A B} (c : js A) (k : A -> js B) : js B :=
  fun s =>
    match c s with
    | (Ret a, s') => k a s'
    | (Throw t, s') => (Throw t, s')
    end.

Notation "'let*' x := c 'in' k" := (bind c (fun x => k))
  (at level 10, x name, c at level 200, k at level 200).

(** [try { body } catch (e) { handler(e) }] *)
Definition try_catch {A} (body : js A) (handler : value -> js A) : js A :=
  fun s =>
    match body s with
    | (Ret a, s') => (Ret a, s')
    | (Throw t, s') => handler t s'
    end.

(** [new C(...)]: the instance is appended to the heap and its reference
    returned. *)
Definition new (o : instance) : js loc :=
  fun s => (Ret (length (heap s)), State (heap s ++ [o]) (log s)).

(** Reading the object behind a reference.  A reference outside the heap does
    not arise in a run of the program; a method call through one is signalled
    the way a call on a non-object is. *)
Definition TypeError : value := VError "TypeError"%string.

Definition deref (l : loc) : js instance :=
  fun s =>
    match heap s !! l with
    | Some o => (Ret o, s)
    | None => (Throw TypeError, s)
    end.

(** Dynamic dispatch of a method call on [this]: the body of the receiver's
    class runs, with the field it reads through [this]. *)
Definition dispatch {A} (this : loc)
    (ok : value -> js A) (err : value -> js A) : js A :=
  let* o := deref this in
  match o with
  | Ok _value => ok _value
  | Err _error => err _error
  end.

(** The callback types of the package root, as their uses fix them:
    [Mapper<A, B> = (a: A) => B], [Predicate<V> = (v: V) => boolean],
    [Assertion<V, To> = (v: V) => v is To]. *)
Definition Mapper : Type := value -> js value.
Definition Predicate : Type := value -> js bool.
Definition Assertion : Type := value -> js bool.
(** A mapper whose result type is a Result: [(v: V) => Result<To, Ex>]. *)
Definition Chainer : Type := value -> js loc.

(** ** Static members of [Result] *)

(** [Result.ERROR] *)
Definition Result_ERROR_take : value :=
  VError "Trying to take value from `Err` instance"%string.
Definition Result_ERROR_takeErr : value :=
  VError "Trying to take error from `Ok` instance"%string.

(** [Result.Ok(value?)]; an omitted argument is [undefined]. *)
Definition Result_Ok (value : value) : js loc :=
  if negb (is_undefined value) then new (Ok value) else new (Ok EMPTY).

(** [Result.Err(error?)] *)
Definition Result_Err (error : value) : js loc :=
  if negb (is_undefined error) then new (Err error) else new (Err EMPTY).

(** [Result.FromTryCatch(fn, mapper?)]; [fn] is a thunk, an omitted [mapper]
    is [None]. *)
Definition Result_FromTryCatch (fn : js value) (mapper : option Mapper)
    : js loc :=
  try_catch
    (let* v := fn in Result_Ok v)
    (fun e =>
       match mapper with
       | Some mapper => let* x := mapper e in Result_Err x
       | None => Result_Err e
       end).

(** ** class Ok *)

Definition Ok_take (this : loc) (_value : value) : js value := ret _value.

Definition Ok_takeErr (this : loc) (_value : value) : js value :=
  throw Result_ERROR_takeErr.

Definition Ok_isOk (this : loc) (_value : value) : js bool := ret true.

Definition Ok_isErr (this : loc) (_value : value) : js bool := ret false.

Definition Ok_onErr (this : loc) (_value : value) (_fn : Mapper) : js loc :=
  ret this.

Definition Ok_onOk (this : loc) (_value : value) (fn : Mapper) : js loc :=
  let* _ := fn _value in ret this.

Definition Ok_map (this : loc) (_value : value) (mapper : Mapper) : js loc :=
  let* x := mapper _value in Result_Ok x.

Definition Ok_refine (this : loc) (_value : value) (_mapper : Mapper)
    : js loc :=
  ret this.

(** ** class Err *)

Definition Err_take (this : loc) (_error : value) : js value :=
  throw Result_ERROR_take.

Definition Err_takeErr (this : loc) (_error : value) : js value := ret _error.

Definition Err_isOk (this : loc) (_error : value) : js bool := ret false.

Definition Err_isErr (this : loc) (_error : value) : js bool := ret true.

Definition Err_onOk (this : loc) (_error : value) (_fn : Mapper) : js loc :=
  ret this.

Definition Err_onErr (this : loc) (_error : value) (fn : Mapper) : js loc :=
  let* _ := fn _error in ret this.

Definition Err_map (this : loc) (_error : value) (_mapper : Mapper) : js loc :=
  ret this.

Definition Err_refine (this : loc) (_error : value) (mapper : Mapper)
    : js loc :=
  let* x := mapper _error in Result_Err x.

Definition Err_chain (this : loc) (_error : value) (_chain : Chainer)
    : js loc :=
  ret this.

(** ** The abstract methods of [Result], resolved on the receiver's class *)

Definition take (this : loc) : js value :=
  dispatch this (Ok_take this) (Err_take this).

Definition takeErr (this : loc) : js value :=
  dispatch this (Ok_takeErr this) (Err_takeErr this).

Definition isOk (this : loc) : js bool :=
  dispatch this (Ok_isOk this) (Err_isOk this).

Definition isErr (this : loc) : js bool :=
  dispatch this (Ok_isErr this) (Err_isErr this).

Definition onOk (this : loc) (effect : Mapper) : js loc :=
  dispatch this (fun v => Ok_onOk this v effect)
                (fun e => Err_onOk this e effect).

Definition onErr (this : loc) (effect : Mapper) : js loc :=
  dispatch this (fun v => Ok_onErr this v effect)
                (fun e => Err_onErr this e effect).

Definition map (this : loc) (mapper : Mapper) : js loc :=
  dispatch this (fun v => Ok_map this v mapper)
                (fun e => Err_map this e mapper).

Definition refine (this : loc) (mapper : Mapper) : js loc :=
  dispatch this (fun v => Ok_refine this v mapper)
                (fun e => Err_refine this e mapper).

(** The getter [value] of class [Ok]; on an object without that property the
    read gives [undefined]. *)
Definition get_value (this : loc) : js value :=
  dispatch this (fun _value => ret _value) (fun _ => ret VUndefined).

(** ** The concrete methods of the base class [Result] *)

Definition Result_toUnion (this : loc) : js loc :=
  let* o := deref this in
  if instanceof_Ok o || instanceof_Err o then ret this
  else throw (VError
    "trying to convert to union a object thats not Ok or Err instance"%string).

Definition Result_toBase (this : loc) : js loc := ret this.

(** [check(predicate, error?)]; an omitted [error] is [undefined]. *)
Definition Result_check (this : loc) (predicate : Predicate) (error : value)
    : js loc :=
  let* e := isErr this in
  if e then ret this else
  let* v := take this in
  let* p := predicate v in
  if p then ret this else
  if negb (is_undefined error) then Result_Err error
  else Result_Err VUndefined.

Definition Result_assert (this : loc) (guard : Assertion) (error : value)
    : js loc :=
  let* e := isErr this in
  if e then ret this else
  let* v := take this in
  let* p := guard v in
  if p then ret this else
  if negb (is_undefined error) then Result_Err error
  else Result_Err VUndefined.

Definition Result_unfold (this : loc) : js loc :=
  let* self := Result_toUnion this in
  let* e := isErr self in
  if e then ret this else
  let* v := get_value self in
  match v with
  | VRes inner => ret inner
  | _ => ret this
  end.

(** The argument [other: R | ((error: E) => R)] of [or] and [orIf]; the test
    [typeof other === "function"] tells the two apart. *)
Inductive alternative : Type :=
| AltResult (r : loc)
| AltFunction (f : Chainer).

Definition Result_or (this : loc) (other : alternative) : js loc :=
  let* o := isOk this in
  if o then ret this else
  match other with
  | AltFunction f => let* e := takeErr this in f e
  | AltResult r => ret r
  end.

Definition Result_orIf (this : loc) (predicate : Predicate)
    (other : alternative) : js loc :=
  let* o := isOk this in
  if o then ret this else
  let* e := takeErr this in
  let* p := predicate e in
  if p then
    match other with
    | AltFunction f => let* e' := takeErr this in f e'
    | AltResult r => ret r
    end
  else ret this.

(** [Ok.chain] and the dispatching [chain]; they come after [unfold], which
    [Ok.chain] calls. *)
Definition Ok_chain (this : loc) (_value : value) (chain : Chainer) : js loc :=
  let* r := chain _value in
  let* w := Result_Ok (VRes r) in
  Result_unfold w.

Definition chain (this : loc) (f : Chainer) : js loc :=
  dispatch this (fun v => Ok_chain this v f) (fun e => Err_chain this e f).

(** ** Calls on a receiver, as one type

    Every instance method of the class hierarchy with its arguments; [invoke]
    performs the call [this.m(args)] and injects what it returns into
    [value]. *)
Inductive method : Type :=
| m_take
| m_takeErr
| m_isOk
| m_isErr
| m_onOk (effect : Mapper)
| m_onErr (effect : Mapper)
| m_map (mapper : Mapper)
| m_refine (mapper : Mapper)
| m_chain (f : Chainer)
| m_check (predicate : Predicate) (error : value)
| m_assert (guard : Assertion) (error : value)
| m_unfold
| m_or (other : alternative)
| m_orIf (predicate : Predicate) (other : alternative)
| m_toUnion
| m_toBase.

Definition as_bool (c : js bool) : js value := let* b := c in ret (VBool b).
Definition as_result (c : js loc) : js value := let* r := c in ret (VRes r).

Definition invoke (m : method) (this : loc) : js value :=
  match m with
  | m_take => take this
  | m_takeErr => takeErr this
  | m_isOk => as_bool (isOk this)
  | m_isErr => as_bool (isErr this)
  | m_onOk effect => as_result (onOk this effect)
  | m_onErr effect => as_result (onErr this effect)
  | m_map mapper => as_result (map this mapper)
  | m_refine mapper => as_result (refine this mapper)
  | m_chain f => as_result (chain this f)
  | m_check predicate error => as_result (Result_check this predicate error)
  | m_assert guard error => as_result (Result_assert this guard error)
  | m_unfold => as_result (Result_unfold this)
  | m_or other => as_result (Result_or this other)
  | m_orIf predicate other => as_result (Result_orIf this predicate other)
  | m_toUnion => as_result (Result_toUnion this)
  | m_toBase => as_result (Result_toBase this)
  end.

(** ** Vocabulary of the statements *)

(** What the constructors store for an argument [x]. *)
Definition stored (x : value) : value :=
  if is_undefined x then EMPTY else x.

(** [s'] has every instance of [s], at the same reference and with the same
    class and field: instances were at most added. *)
Definition extends (s s' : state) : Prop := heap s `prefix_of` heap s'.

(** A callback that leaves the existing instances alone.  Code outside the
    classes has no way to write the private fields, and nothing frees an
    instance. *)
Definition preserves_heap {A B} (f : A -> js B) : Prop :=
  forall a s, extends s (snd (f a s)).

(** A callback that, besides, returns normally on every argument. *)
Definition returns_normally {A B} (f : A -> js B) : Prop :=
  forall a s, exists b s', f a s = (Ret b, s') /\ extends s s'.

Definition alternative_ok (P : Chainer -> Prop) (other : alternative) : Prop :=
  match other with
  | AltResult _ => True
  | AltFunction f => P f
  end.

(** A property required of every callback among a call's arguments. *)
Definition callbacks (P : forall A B, (A -> js B) -> Prop) (m : method)
    : Prop :=
  match m with
  | m_onOk f | m_onErr f | m_map f | m_refine f => P _ _ f
  | m_chain f => P _ _ f
  | m_check p _ | m_assert p _ => P _ _ p
  | m_or other => alternative_ok (P _ _) other
  | m_orIf p other => P _ _ p /\ alternative_ok (P _ _) other
  | _ => True
  end.

(** A pure function used as a callback: it returns its result and touches
    nothing. *)
Definition pure (f : value -> value) : Mapper := fun x => ret (f x).

(** Whether a computation ended by throwing. *)
Definition throws {A} (r : outcome A * state) : Prop :=
  exists t, fst r = Throw t.

(** Two results are observably equivalent when the references they returned
    designate instances of the same class with the same payload. *)
Definition equivalent (a b : outcome loc * state) : Prop :=
  match a, b with
  | (Ret r1, s1), (Ret r2, s2) =>
      exists o, heap s1 !! r1 = Some o /\ heap s2 !! r2 = Some o
  | (Throw t1, _), (Throw t2, _) => t1 = t2
  | _, _ => False
  end.

(** ** Programs and callbacks of the examples *)

(** The state of a program that has built no Result yet. *)
Definition s0 : state := State [] [].

(** [Ok(v).take()], [Err(e).takeErr()], [Err(e).take()], [Ok(v).takeErr()] *)
Definition Ok_then_take (v : value) : js value :=
  let* r := Result_Ok v in take r.
Definition Err_then_takeErr (e : value) : js value :=
  let* r := Result_Err e in takeErr r.
Definition Err_then_take (e : value) : js value :=
  let* r := Result_Err e in take r.
Definition Ok_then_takeErr (v : value) : js value :=
  let* r := Result_Ok v in takeErr r.

(** [Ok(v).chain(f)] *)
Definition Ok_then_chain (v : value) (f : Chainer) : js loc :=
  let* r := Result_Ok v in chain r f.

(** [Ok(v).map(f).map(g)] and [Ok(v).map(x => g(f(x)))] *)
Definition map_map (v : value) (f g : value -> value) : js loc :=
  let* r := Result_Ok v in
  let* r1 := map r (pure f) in
  map r1 (pure g).

Definition map_compose (v : value) (f g : value -> value) : js loc :=
  let* r := Result_Ok v in
  map r (fun x => let* y := pure f x in pure g y).

(** [x => undefined] *)
Definition to_undefined : value -> value := fun _ => VUndefined.

(** [x => x === undefined ? 1 : 2] *)
Definition tell_undefined : value -> value :=
  fun x => if is_undefined x then VNum 1 else VNum 2.

(** [x => x === undefined ? Err("none") : Ok(x)] *)
Definition Err_if_undefined : Chainer :=
  fun x => if is_undefined x then Result_Err (VStr "none") else Result_Ok x.

(** [() => { throw "boom" }] *)
Definition boom {A B} : A -> js B := fun _ => throw (VStr "boom").

(** [x => { log.push(x) }] *)
Definition record : Mapper :=
  fun x s => (Ret VUndefined, State (heap s) (log s ++ [x])).

(** [x => x > 0] on numbers *)
Definition positive : Predicate :=
  fun x => ret (match x with VNum n => (0 <? n)%Z | _ => false end).

(** [Ok(Ok(5)).unfold()], [Ok(5).unfold()] and [Ok(Ok(Ok(5))).unfold()] *)
Definition nested_unfold : js loc :=
  let* a := Result_Ok (VNum 5) in
  let* b := Result_Ok (VRes a) in
  Result_unfold b.

Definition flat_unfold : js loc :=
  let* a := Result_Ok (VNum 5) in
  Result_unfold a.

Definition twice_nested_unfold : js loc :=
  let* a := Result_Ok (VNum 5) in
  let* b := Result_Ok (VRes a) in
  let* c := Result_Ok (VRes b) in
  Result_unfold c.

(** [() => 42], [() => { throw "boom" }], [() => { throw undefined }],
    [() => undefined] and the mapper [e => e + "!"] on strings. *)
Definition returns_42 : js value := ret (VNum 42).
Definition throws_boom : js value := throw (VStr "boom").
Definition throws_undefined : js value := throw VUndefined.
Definition returns_undefined : js value := ret VUndefined.
Definition add_bang : Mapper :=
  fun e => ret (match e with VStr x => VStr (x ++ "!") | _ => e end).

(** The heap after [Ok(5)], after [Err("e")], and after [Ok(Ok(5))]. *)
Definition s_ok : state := State [Ok (VNum 5)] [].
Definition s_err : state := State [Err (VStr "e")] [].
Definition s_nested : state := State [Ok (VNum 5); Ok (VRes 0)] [].

(** The payload of an instance, and the invariant that no instance holds
    [undefined]: what the constructor functions guarantee of all they
    build. *)
Definition payload (o : instance) : value :=
  match o with Ok v => v | Err e => e end.

Definition defined_payloads (s : state) : Prop :=
  Forall (fun o => payload o <> VUndefined) (heap s).

Definition keeps_defined {A B} (f : A -> js B) : Prop :=
  forall a s, defined_payloads s -> defined_payloads (snd (f a s)).

(** The instance that a computation's returned reference designates. *)
Definition designated (r : outcome loc * state) : option instance :=
  match r with
  | (Ret l, s) => heap s !! l
  | (Throw _, _) => None
  end.

(** A reference to an instance created after [s]. *)
Definition fresh_for (s : state) (r : loc) : Prop := length (heap s) <= r.

(** A computation that keeps the invariant [defined_payloads]. *)
Definition runs_defined {A} (c : js A) : Prop :=
  forall s, defined_payloads s -> defined_payloads (snd (c s)).

(** ** The asynchronous boundary

    A promise, seen from the code that awaits it: [await p] hands back the
    value [p] is fulfilled with, or throws the reason [p] is rejected with,
    after whatever else ran in between.  A promise that never settles is not
    represented.  The outcome of an [async] function is the settlement of the
    promise it returns: [Ret] when it is resolved, [Throw] when it is
    rejected. *)
Definition Promise : Type := js value.

Definition await (p : Promise) : js value := p.

(** The argument [promise: Promise<V> | (() => Promise<V>)]; the test
    [typeof promise === "function"] tells the two apart. *)
Inductive promise_or_thunk : Type :=
| APromise (p : Promise)
| AThunk (f : js Promise).

(** [Result.FromPromise(promise, mapper?)] *)
Definition Result_FromPromise (promise : promise_or_thunk)
    (mapper : option Mapper) : js loc :=
  try_catch
    (match promise with
     | AThunk f => let* p := f in let* v := await p in Result_Ok v
     | APromise p => let* v := await p in Result_Ok v
     end)
    (fun e =>
       match mapper with
       | Some mapper => let* x := mapper e in Result_Err x
       | None => Result_Err e
       end).

(** ** Compositions of the methods *)

(** A function returning a Result, passed where a mapper is expected. *)
Definition as_value (f : Chainer) : Mapper :=
  fun x => let* r := f x in ret (VRes r).

(** [x => x] *)
Definition identity : Mapper := fun x => ret x.

(** [_ => b] *)
Definition always (b : bool) : Predicate := fun _ => ret b.

(** [x => p(x) && q(x)] *)
Definition and_then (p q : Predicate) : Predicate :=
  fun x => let* a := p x in if a then q x else ret false.

(** [this.map(f).unfold()] *)
Definition map_then_unfold (this : loc) (f : Chainer) : js loc :=
  let* w := map this (as_value f) in Result_unfold w.

(** [this.map(f).refine(g)] and [this.refine(g).map(f)] *)
Definition map_then_refine (this : loc) (f g : Mapper) : js loc :=
  let* r := map this f in refine r g.

Definition refine_then_map (this : loc) (f g : Mapper) : js loc :=
  let* r := refine this g in map r f.

(** [this.check(p, error).check(q, error)] *)
Definition check_then_check (this : loc) (p q : Predicate) (error : value)
    : js loc :=
  let* r := Result_check this p error in Result_check r q error.



(** [Result.Ok(x).unfold()] *)
Definition wrap_then_unfold (x : value) : js loc :=
  let* w := Result_Ok x in Result_unfold w.

(** [this.onOk(f).onErr(g)] *)
Definition onOk_then_onErr (this : loc) (f g : Mapper) : js loc :=
  let* r := onOk this f in onErr r g.

(** [() => { throw "boom" }] where a promise was to be returned. *)
Definition boom_thunk : js Promise := throw (VStr "boom").

(** A pipeline [this.m1(...).m2(...)...]: each call is made on what the
    call before it returned.  A method call on a value that is not a Result
    is outside the classes and is signalled as a [TypeError]. *)
Fixpoint pipeline (ms : list method) (this : loc) : js loc :=
  match ms with
  | [] => ret this
  | m :: ms' =>
      let* v := invoke m this in
      match v with
      | VRes r => pipeline ms' r
      | _ => throw TypeError
      end
  end.

(** The combinators that act on a success, and those that act on a
    failure. *)
Definition success_side (m : method) : bool :=
  match m with
  | m_map _ | m_chain _ | m_check _ _ | m_assert _ _ | m_onOk _
  | m_unfold => true
  | _ => false
  end.

Definition failure_side (m : method) : bool :=
  match m with
  | m_refine _ | m_or _ | m_orIf _ _ | m_onErr _ => true
  | _ => false
  end.

(** [Result.FromTryCatch(() => this.take())] *)
Definition capture_take (this : loc) : js loc :=
  Result_FromTryCatch (take this) None.

(** ** Basic facts about the heap and the monad *)

Lemma extends_refl s : extends s s.
Proof. unfold extends. reflexivity. Qed.

Lemma extends_trans s1 s2 s3 : extends s1 s2 -> extends s2 s3 -> extends s1 s3.
Proof. unfold extends. intros H1 H2. etransitivity; eassumption. Qed.

Lemma extends_lookup s s' l o :
  extends s s' -> heap s !! l = Some o -> heap s' !! l = Some o.
Proof. intros H1 H2. eapply prefix_lookup_Some; eassumption. Qed.

Lemma extends_alloc s o : extends s (State (heap s ++ [o]) (log s)).
Proof. unfold extends. simpl. apply prefix_app_r. reflexivity. Qed.

Lemma lookup_alloc (h : list instance) o : (h ++ [o]) !! length h = Some o.
Proof. apply list_lookup_middle. reflexivity. Qed.

Lemma deref_Some s l o : heap s !! l = Some o -> deref l s = (Ret o, s).
Proof. intros H. unfold deref. rewrite H. reflexivity. Qed.

Lemma dispatch_Ok {A} s this v (ok err : value -> js A) :
  heap s !! this = Some (Ok v) -> dispatch this ok err s = ok v s.
Proof.
  intros H. unfold dispatch, bind. now rewrite (deref_Some _ _ _ H).
Qed.

Lemma dispatch_Err {A} s this e (ok err : value -> js A) :
  heap s !! this = Some (Err e) -> dispatch this ok err s = err e s.
Proof.
  intros H. unfold dispatch, bind. now rewrite (deref_Some _ _ _ H).
Qed.

Lemma Result_Ok_new x : Result_Ok x = new (Ok (stored x)).
Proof. destruct x; reflexivity. Qed.

Lemma Result_Err_new x : Result_Err x = new (Err (stored x)).
Proof. destruct x; reflexivity. Qed.

Lemma stored_defined x : x <> VUndefined -> stored x = x.
Proof. intros H. destruct x; try reflexivity. congruence. Qed.

(** ** Running the methods on a known receiver *)

Ltac unfold_methods :=
  unfold invoke, as_bool, as_result,
    Result_check, Result_assert, Result_unfold, Result_or, Result_orIf,
    Result_toUnion, Result_toBase, get_value,
    chain, map, refine, onOk, onErr, take, takeErr, isOk, isErr,
    Ok_chain, Ok_map, Ok_refine, Ok_onOk, Ok_onErr, Ok_take, Ok_takeErr,
    Ok_isOk, Ok_isErr,
    Err_chain, Err_map, Err_refine, Err_onOk, Err_onErr, Err_take,
    Err_takeErr, Err_isOk, Err_isErr,
    dispatch, deref in *;
  rewrite ?Result_Ok_new, ?Result_Err_new in *;
  unfold new, bind, ret, throw in *.

Ltac js_step :=
  match goal with
  | H : heap ?s !! ?l = Some _ |- context [heap ?s !! ?l] => rewrite H
  | |- _ => rewrite lookup_alloc
  | H : heap ?s !! ?l = Some ?o |- context [(heap ?s ++ ?k) !! ?l] =>
      rewrite (lookup_app_l_Some (heap s) k l o H)
  | |- context [heap (State ?h ?l)] => change (heap (State h l)) with h
  | |- context [log (State ?h ?l)] => change (log (State h l)) with l
  end.

Ltac js_call :=
  match goal with
  | Hf : returns_normally ?f |- context [?f ?a ?s] =>
      let b := fresh "b" in
      let s' := fresh "s'" in
      let E := fresh "E" in
      let X := fresh "Hext" in
      destruct (Hf a s) as (b & s' & E & X); rewrite E
  | X : extends ?s ?s', H : heap ?s !! ?l = Some ?o
    |- context [heap ?s' !! ?l] =>
      rewrite (extends_lookup s s' l o X H)
  | X : extends ?s ?s', H : heap ?s !! ?l = Some ?o
    |- context [(heap ?s' ++ ?k) !! ?l] =>
      rewrite (lookup_app_l_Some (heap s') k l o (extends_lookup s s' l o X H))
  end.

Ltac js_run :=
  unfold_methods; repeat (first [js_step | progress (cbn beta iota)]).

Ltac js_case :=
  match goal with
  | |- context [if negb (is_undefined ?x) then _ else _] =>
      destruct (is_undefined x); cbn [negb]
  | |- context [if ?b then _ else _] => is_var b; destruct b
  | |- context [match ?v with VRes _ => _ | _ => _ end] => is_var v; destruct v
  end.

Ltac js_go :=
  repeat (first
    [ js_call | js_step | progress unfold_methods
    | progress (cbn beta iota delta
                 [instanceof_Ok instanceof_Err orb negb stored is_undefined])
    | js_case ]).

Lemma take_Ok s this v :
  heap s !! this = Some (Ok v) -> take this s = (Ret v, s).
Proof. intros H. js_run. reflexivity. Qed.

Lemma takeErr_Err s this e :
  heap s !! this = Some (Err e) -> takeErr this s = (Ret e, s).
Proof. intros H. js_run. reflexivity. Qed.

Lemma take_Err s this e :
  heap s !! this = Some (Err e) -> take this s = (Throw Result_ERROR_take, s).
Proof. intros H. js_run. reflexivity. Qed.

Lemma takeErr_Ok s this v :
  heap s !! this = Some (Ok v) ->
  takeErr this s = (Throw Result_ERROR_takeErr, s).
Proof. intros H. js_run. reflexivity. Qed.

Lemma Result_Ok_spec s x :
  Result_Ok x s = (Ret (length (heap s)),
                   State (heap s ++ [Ok (stored x)]) (log s)).
Proof. rewrite Result_Ok_new. reflexivity. Qed.

Lemma Result_Err_spec s x :
  Result_Err x s = (Ret (length (heap s)),
                    State (heap s ++ [Err (stored x)]) (log s)).
Proof. rewrite Result_Err_new. reflexivity. Qed.

(** [Ok(undefined)] is [Ok()]: it holds the sentinel, and so does
    [Err(undefined)]. *)
Lemma constructors_on_undefined s :
  fst (Ok_then_take VUndefined s) = Ret EMPTY
  /\ fst (Err_then_takeErr VUndefined s) = Ret EMPTY.
Proof. split; unfold Ok_then_take, Err_then_takeErr; js_run; reflexivity. Qed.

(** ** The constructors never store [undefined] *)

Lemma stored_not_undefined x : stored x <> VUndefined.
Proof. destruct x; discriminate. Qed.

Lemma defined_alloc s o l :
  defined_payloads s ->
  payload o <> VUndefined ->
  defined_payloads (State (heap s ++ [o]) l).
Proof.
  unfold defined_payloads. cbn [heap]. intros Hs Ho.
  apply Forall_app. split; [exact Hs|]. now apply Forall_singleton.
Qed.

Lemma defined_lookup s l o :
  defined_payloads s -> heap s !! l = Some o -> payload o <> VUndefined.
Proof. intros Hs Ho. exact (proj1 (Forall_lookup _ _) Hs l o Ho). Qed.

Ltac js_defined_call :=
  match goal with
  | Hf : keeps_defined ?f, D : defined_payloads ?s |- context [?f ?a ?s] =>
      let X := fresh "Hdef" in
      let E := fresh "E" in
      destruct (f a s) as [[?|?] ?] eqn:E;
      pose proof (Hf a s D) as X; rewrite E in X; cbn [snd] in X
  | |- context [match heap ?s !! ?l with _ => _ end] =>
      destruct (heap s !! l) as [[?|?]|]
  end.

Ltac js_defined :=
  repeat (first
    [ js_step | js_defined_call | progress unfold_methods
    | progress (cbn beta iota delta
                 [instanceof_Ok instanceof_Err orb negb is_undefined])
    | js_case ]).

(** Every method call keeps the invariant, provided the callbacks do. *)
Lemma invoke_keeps_defined m this s :
  callbacks (@keeps_defined) m ->
  defined_payloads s ->
  defined_payloads (snd (invoke m this s)).
Proof.
  intros Hcb Hs.
  destruct m; cbn [callbacks alternative_ok] in Hcb;
    try match goal with o : alternative |- _ => destruct o end;
    cbn [alternative_ok] in Hcb;
    try match type of Hcb with _ /\ _ => destruct Hcb as [Hp Hf] end;
    js_defined; cbn [snd]; try assumption;
    apply defined_alloc; cbn [payload];
      first [assumption | apply stored_not_undefined | discriminate].
Qed.

Lemma constructors_keep_defined x s :
  defined_payloads s ->
  defined_payloads (snd (Result_Ok x s))
  /\ defined_payloads (snd (Result_Err x s)).
Proof.
  intros Hs. rewrite Result_Ok_spec, Result_Err_spec.
  split; apply defined_alloc; try assumption; apply stored_not_undefined.
Qed.

(** ** C1: chain and the identity laws *)

Lemma Ok_chain_spec this v (f : Chainer) s :
  heap s !! this = Some (Ok v) ->
  chain this f s =
    match f v s with
    | (Ret r, s') => (Ret r, State (heap s' ++ [Ok (VRes r)]) (log s'))
    | (Throw t, s') => (Throw t, s')
    end.
Proof.
  intros Ho. unfold chain. rewrite (dispatch_Ok _ _ _ _ _ Ho).
  unfold Ok_chain, bind. destruct (f v s) as [[r|t] s']; [|reflexivity].
  rewrite Result_Ok_spec. cbn [stored is_undefined].
  js_run. cbn [instanceof_Ok instanceof_Err orb]. js_run. reflexivity.
Qed.

Lemma Err_chain_spec this e (f : Chainer) s :
  heap s !! this = Some (Err e) -> chain this f s = (Ret this, s).
Proof. intros Ho. js_run. reflexivity. Qed.

(** C1, as stated, fails at [undefined]: [Ok(undefined)] holds the empty
    sentinel, so [Ok(undefined).chain(f)] is [f(EMPTY)]; with
    [f = x => x === undefined ? Err("none") : Ok(x)] it is a success holding
    the sentinel, while [f(undefined)] is a failure. *)
Lemma chain_left_identity_fails_at_undefined :
  designated (Ok_then_chain VUndefined Err_if_undefined s0) = Some (Ok EMPTY)
  /\ designated (Err_if_undefined VUndefined s0) = Some (Err (VStr "none"))
  /\ ~ equivalent (Ok_then_chain VUndefined Err_if_undefined s0)
                  (Err_if_undefined VUndefined s0).
Proof.
  repeat split; try reflexivity.
  vm_compute. intros (o & H1 & H2). congruence.
Qed.

(** The same mechanism on a success built with [new Ok(undefined)], which no
    constructor function builds: chaining [x => Ok(x)] gives a success
    holding the sentinel. *)
Lemma chain_right_identity_on_new_Ok_undefined :
  designated (chain 0 (fun x => Result_Ok x) (State [Ok VUndefined] []))
  = Some (Ok EMPTY).
Proof. reflexivity. Qed.

(** C1 (amended): for every value [v] other than [undefined] and every
    function [f] returning a Result, [Ok(v).chain(f)] equals [f(v)]: it
    returns the very Result that [f(v)] returns, or throws what [f(v)]
    throws, and leaves behind only the wrapper that [unfold] discards; and
    for every Result [r] that is not a success holding [undefined] (no
    constructor function builds one), [r.chain(x => Ok(x))] returns a Result
    of the same variant and payload as [r], with every existing instance
    kept. *)
Theorem chain_identity_laws :
  (forall v (f : Chainer) s,
      v <> VUndefined ->
      Ok_then_chain v f s =
        match f v (State (heap s ++ [Ok v]) (log s)) with
        | (Ret r, s') => (Ret r, State (heap s' ++ [Ok (VRes r)]) (log s'))
        | (Throw t, s') => (Throw t, s')
        end)
  /\ (forall this o s,
      heap s !! this = Some o ->
      o <> Ok VUndefined ->
      exists r s',
        chain this (fun x => Result_Ok x) s = (Ret r, s')
        /\ extends s s' /\ heap s' !! r = Some o).
Proof.
  split.
  - intros v f s Hv. unfold Ok_then_chain, bind.
    rewrite Result_Ok_spec, (stored_defined _ Hv).
    apply Ok_chain_spec. apply lookup_alloc.
  - intros this o s Ho Hne. destruct o as [v|e].
    + assert (Hv : v <> VUndefined) by congruence.
      rewrite (Ok_chain_spec _ _ _ _ Ho), Result_Ok_spec.
      rewrite (stored_defined _ Hv).
      eexists _, _. split; [reflexivity|]. cbn [heap]. split.
      * unfold extends. cbn [heap]. rewrite <- app_assoc.
        now apply prefix_app_r.
      * rewrite lookup_app_l_Some with (x := Ok v); [reflexivity|].
        apply lookup_alloc.
    + rewrite (Err_chain_spec _ _ _ _ Ho).
      eexists _, _. split; [reflexivity|]. split; [apply extends_refl|exact Ho].
Qed.

Lemma chain_identity_laws_witness :
  (VNum 5 <> VUndefined
   /\ Ok_then_chain (VNum 5) Err_if_undefined s0 =
        (Ret 1, State [Ok (VNum 5); Ok (VNum 5); Ok (VRes 1)] []))
  /\ (heap s_ok !! 0 = Some (Ok (VNum 5))
   /\ Ok (VNum 5) <> Ok VUndefined
   /\ exists r s',
        chain 0 (fun x => Result_Ok x) s_ok = (Ret r, s')
        /\ extends s_ok s' /\ heap s' !! r = Some (Ok (VNum 5))).
Proof.
  pose proof chain_identity_laws as [HL HR].
  assert (H1 : VNum 5 <> VUndefined) by discriminate.
  assert (H2 : heap s_ok !! 0 = Some (Ok (VNum 5))) by reflexivity.
  assert (H3 : Ok (VNum 5) <> Ok VUndefined) by discriminate.
  split.
  - split; [exact H1|]. exact (HL (VNum 5) Err_if_undefined s0 H1).
  - split; [exact H2|]. split; [exact H3|]. exact (HR 0 _ s_ok H2 H3).
Defined.

(** ** C2: map and composition *)

Lemma Ok_map_pure_spec this v f s :
  heap s !! this = Some (Ok v) ->
  map this (pure f) s =
    (Ret (length (heap s)), State (heap s ++ [Ok (stored (f v))]) (log s)).
Proof.
  intros Ho. unfold map. rewrite (dispatch_Ok _ _ _ _ _ Ho).
  unfold Ok_map, pure, bind, ret. now rewrite Result_Ok_spec.
Qed.

Lemma map_map_spec v f g s :
  designated (map_map v f g s)
  = Some (Ok (stored (g (stored (f (stored v)))))).
Proof.
  unfold map_map, bind. rewrite Result_Ok_spec.
  rewrite (Ok_map_pure_spec _ (stored v)) by apply lookup_alloc.
  rewrite (Ok_map_pure_spec _ (stored (f (stored v)))) by apply lookup_alloc.
  apply lookup_alloc.
Qed.

Lemma map_compose_spec v f g s :
  designated (map_compose v f g s) = Some (Ok (stored (g (f (stored v))))).
Proof.
  unfold map_compose, bind. rewrite Result_Ok_spec.
  change (fun x : value => fun s1 : state =>
            let (o, s') := pure f x s1 in
            match o with
            | Ret a => pure g a s'
            | Throw t => (Throw t, s')
            end) with (pure (fun x => g (f x))).
  rewrite (Ok_map_pure_spec _ (stored v)) by apply lookup_alloc.
  apply lookup_alloc.
Qed.

Lemma equivalent_designated a b o :
  designated a = Some o -> designated b = Some o -> equivalent a b.
Proof.
  destruct a as [[r1|t1] s1], b as [[r2|t2] s2]; cbn; try discriminate.
  intros H1 H2. exists o. split; assumption.
Qed.

(** C2, as stated, fails when [f] returns [undefined]: with [f = x =>
    undefined] and [g = x => x === undefined ? 1 : 2], [Ok(0).map(f)] holds
    the empty sentinel, so [Ok(0).map(f).map(g)] holds 2, while
    [Ok(0).map(x => g(f(x)))] holds 1. *)
Lemma map_composition_fails_through_undefined :
  designated (map_map (VNum 0) to_undefined tell_undefined s0)
    = Some (Ok (VNum 2))
  /\ designated (map_compose (VNum 0) to_undefined tell_undefined s0)
    = Some (Ok (VNum 1))
  /\ ~ equivalent (map_map (VNum 0) to_undefined tell_undefined s0)
                  (map_compose (VNum 0) to_undefined tell_undefined s0).
Proof.
  repeat split; try reflexivity.
  vm_compute. intros (o & H1 & H2). congruence.
Qed.

(** C2 (amended): for every value [v] and all pure functions [f] and [g]
    such that [f] does not return [undefined] on the payload of [Ok(v)],
    [Ok(v).map(f).map(g)] is observably equivalent to
    [Ok(v).map(x => g(f(x)))]: both are successes holding [g(f(payload))]
    (the empty sentinel when that is [undefined]). *)
Theorem map_composition (v : value) (f g : value -> value) (s : state) :
  f (stored v) <> VUndefined ->
  equivalent (map_map v f g s) (map_compose v f g s)
  /\ designated (map_map v f g s) = Some (Ok (stored (g (f (stored v))))).
Proof.
  intros Hf.
  assert (H : designated (map_map v f g s)
              = Some (Ok (stored (g (f (stored v))))))
    by (rewrite map_map_spec; now rewrite (stored_defined _ Hf)).
  split; [|exact H].
  eapply equivalent_designated; [exact H|apply map_compose_spec].
Qed.

Lemma map_composition_witness :
  tell_undefined (stored (VNum 0)) <> VUndefined
  /\ equivalent (map_map (VNum 0) tell_undefined tell_undefined s0)
                (map_compose (VNum 0) tell_undefined tell_undefined s0)
  /\ designated (map_map (VNum 0) tell_undefined tell_undefined s0)
     = Some (Ok (VNum 2)).
Proof.
  assert (H : tell_undefined (stored (VNum 0)) <> VUndefined)
    by discriminate.
  split; [exact H|].
  exact (map_composition (VNum 0) tell_undefined tell_undefined s0 H).
Defined.

(** ** C3: the constructors *)

(** C3, as stated, fails at [undefined]: [Ok(undefined).take()] returns the
    empty sentinel, not [undefined], and likewise
    [Err(undefined).takeErr()]. *)
Lemma Ok_undefined_take_not_undefined :
  fst (Ok_then_take VUndefined s0) = Ret EMPTY
  /\ fst (Ok_then_take VUndefined s0) <> Ret VUndefined
  /\ fst (Err_then_takeErr VUndefined s0) <> Ret VUndefined.
Proof. repeat split; vm_compute; congruence. Qed.

(** C3 (amended): for every value [v] other than [undefined], [Ok(v)]
    produces a success variant holding exactly [v], so [Ok(v).take()]
    returns [v]; and for every error value [v] other than [undefined],
    [Err(v)] produces a failure variant holding exactly [v], so
    [Err(v).takeErr()] returns [v]. *)
Theorem constructors_hold_their_argument (s : state) (v : value) :
  v <> VUndefined ->
  (exists r s', Result_Ok v s = (Ret r, s')
     /\ heap s' !! r = Some (Ok v) /\ take r s' = (Ret v, s'))
  /\ (exists r s', Result_Err v s = (Ret r, s')
     /\ heap s' !! r = Some (Err v) /\ takeErr r s' = (Ret v, s'))
  /\ fst (Ok_then_take v s) = Ret v
  /\ fst (Err_then_takeErr v s) = Ret v.
Proof.
  intros Hv.
  assert (HOk : (heap s ++ [Ok v]) !! length (heap s) = Some (Ok v))
    by apply lookup_alloc.
  assert (HErr : (heap s ++ [Err v]) !! length (heap s) = Some (Err v))
    by apply lookup_alloc.
  split; [|split; [|split]].
  - eexists _, _. rewrite Result_Ok_spec, (stored_defined _ Hv).
    split; [reflexivity|]. split; [exact HOk|]. now apply take_Ok.
  - eexists _, _. rewrite Result_Err_spec, (stored_defined _ Hv).
    split; [reflexivity|]. split; [exact HErr|]. now apply takeErr_Err.
  - unfold Ok_then_take, bind.
    rewrite Result_Ok_spec, (stored_defined _ Hv).
    now rewrite (take_Ok _ _ v).
  - unfold Err_then_takeErr, bind.
    rewrite Result_Err_spec, (stored_defined _ Hv).
    now rewrite (takeErr_Err _ _ v).
Qed.

Lemma constructors_hold_their_argument_witness :
  VNum 7 <> VUndefined
  /\ fst (Ok_then_take (VNum 7) s0) = Ret (VNum 7)
  /\ fst (Err_then_takeErr (VNum 7) s0) = Ret (VNum 7).
Proof.
  assert (H : VNum 7 <> VUndefined) by discriminate.
  split; [exact H|].
  exact (proj2 (proj2 (constructors_hold_their_argument s0 (VNum 7) H))).
Defined.

(** ** C4: the operations that throw *)

Lemma not_throws_Ret {A} (a : A) s : ~ throws (Ret a, s).
Proof. intros [t Ht]. discriminate. Qed.

Lemma throws_Throw {A} t s : throws (@Throw A t, s).
Proof. exists t. reflexivity. Qed.

Lemma invoke_throws_iff m this o s :
  heap s !! this = Some o ->
  callbacks (@returns_normally) m ->
  throws (invoke m this s) <->
    (m = m_take /\ instanceof_Err o = true)
    \/ (m = m_takeErr /\ instanceof_Ok o = true).
Proof.
  intros Ho Hcb.
  destruct m, o; cbn [callbacks alternative_ok] in Hcb;
    try match goal with o : alternative |- _ => destruct o end;
    cbn [alternative_ok] in Hcb;
    try match type of Hcb with _ /\ _ => destruct Hcb as [Hp Hf] end;
    js_go; cbn [instanceof_Ok instanceof_Err orb];
    first [ split; [intros [t Ht]; discriminate
                   | intros [[? ?]|[? ?]]; discriminate]
          | split; [intros _; auto | intros _; eexists; reflexivity] ].
Qed.

Lemma pure_returns_normally f : returns_normally (pure f).
Proof.
  intros a s. exists (f a), s. split; [reflexivity|apply extends_refl].
Qed.

Lemma constructors_never_throw x s :
  ~ throws (Result_Ok x s) /\ ~ throws (Result_Err x s).
Proof.
  rewrite Result_Ok_spec, Result_Err_spec. split; apply not_throws_Ret.
Qed.

Lemma FromTryCatch_never_throws fn mapper s :
  match mapper with Some f => returns_normally f | None => True end ->
  ~ throws (Result_FromTryCatch fn mapper s).
Proof.
  intros Hm. unfold Result_FromTryCatch, try_catch, bind.
  destruct (fn s) as [[v|t] s1].
  - rewrite Result_Ok_spec. apply not_throws_Ret.
  - destruct mapper as [f|].
    + destruct (Hm t s1) as (x & s2 & E & _). rewrite E, Result_Err_spec.
      apply not_throws_Ret.
    + rewrite Result_Err_spec. apply not_throws_Ret.
Qed.

(** C4: for every error value [e], [Err(e).take()] throws
    [Result.ERROR.take], and for every value [v], [Ok(v).takeErr()] throws
    [Result.ERROR.takeErr]; these are the only operations of the algebra that
    throw by themselves: a call of any method on any Result, with callbacks
    that return, throws exactly when it is [take] on a failure or [takeErr]
    on a success, and neither the constructors nor [FromTryCatch] throw. *)
Theorem only_take_on_the_wrong_variant_throws :
  (forall e s, fst (Err_then_take e s) = Throw Result_ERROR_take)
  /\ (forall v s, fst (Ok_then_takeErr v s) = Throw Result_ERROR_takeErr)
  /\ (forall this e s, heap s !! this = Some (Err e) ->
        take this s = (Throw Result_ERROR_take, s))
  /\ (forall this v s, heap s !! this = Some (Ok v) ->
        takeErr this s = (Throw Result_ERROR_takeErr, s))
  /\ (forall m this o s,
        heap s !! this = Some o ->
        callbacks (@returns_normally) m ->
        throws (invoke m this s) <->
          (m = m_take /\ instanceof_Err o = true)
          \/ (m = m_takeErr /\ instanceof_Ok o = true))
  /\ (forall x s, ~ throws (Result_Ok x s) /\ ~ throws (Result_Err x s))
  /\ (forall fn mapper s,
        match mapper with Some f => returns_normally f | None => True end ->
        ~ throws (Result_FromTryCatch fn mapper s)).
Proof.
  repeat apply conj.
  - intros e s. unfold Err_then_take, bind. rewrite Result_Err_spec.
    now rewrite (take_Err (State (heap s ++ [Err (stored e)]) (log s))
                   (length (heap s)) (stored e) (lookup_alloc _ _)).
  - intros v s. unfold Ok_then_takeErr, bind. rewrite Result_Ok_spec.
    now rewrite (takeErr_Ok (State (heap s ++ [Ok (stored v)]) (log s))
                   (length (heap s)) (stored v) (lookup_alloc _ _)).
  - intros this e s H. exact (take_Err s this e H).
  - intros this v s H. exact (takeErr_Ok s this v H).
  - intros m this o s. apply invoke_throws_iff.
  - apply constructors_never_throw.
  - apply FromTryCatch_never_throws.
Qed.

Lemma only_take_on_the_wrong_variant_throws_witness :
  (heap s_err !! 0 = Some (Err (VStr "e"))
   /\ take 0 s_err = (Throw Result_ERROR_take, s_err))
  /\ (heap s_ok !! 0 = Some (Ok (VNum 5))
   /\ callbacks (@returns_normally) (m_map (pure tell_undefined))
   /\ ~ throws (invoke (m_map (pure tell_undefined)) 0 s_ok)).
Proof.
  pose proof only_take_on_the_wrong_variant_throws
    as (_ & _ & Htake & _ & Honly & _ & _).
  assert (H1 : heap s_err !! 0 = Some (Err (VStr "e"))) by reflexivity.
  assert (H2 : heap s_ok !! 0 = Some (Ok (VNum 5))) by reflexivity.
  assert (H3 : callbacks (@returns_normally) (m_map (pure tell_undefined)))
    by apply pure_returns_normally.
  split.
  - split; [exact H1|]. exact (Htake 0 (VStr "e") s_err H1).
  - split; [exact H2|]. split; [exact H3|].
    intros Ht. apply (Honly _ 0 _ s_ok H2 H3) in Ht.
    destruct Ht as [[Hm _]|[Hm _]]; discriminate Hm.
Defined.

(** ** C5: check *)

(** C5: on a success holding [v], [check(predicate, error?)] returns the
    receiver itself when [predicate(v)] is true, and otherwise a new failure
    holding [error] if one was given (is not [undefined]), else the empty
    sentinel; on a failure it returns the receiver itself and the state is
    left as it was whatever [predicate] is, so the predicate is not
    evaluated. *)
Theorem check_spec this o (predicate : Predicate) error s :
  heap s !! this = Some o ->
  match o with
  | Err _ => Result_check this predicate error s = (Ret this, s)
  | Ok v =>
      match predicate v s with
      | (Ret true, s') =>
          Result_check this predicate error s = (Ret this, s')
      | (Ret false, s') =>
          Result_check this predicate error s =
            (Ret (length (heap s')),
             State (heap s' ++ [Err (if is_undefined error then EMPTY
                                     else error)]) (log s'))
      | (Throw t, s') =>
          Result_check this predicate error s = (Throw t, s')
      end
  end.
Proof.
  intros Ho. destruct o as [v|e].
  - destruct (predicate v s) as [[[|]|t] s'] eqn:E;
      js_run; rewrite E; try reflexivity.
    destruct error; reflexivity.
  - js_run. reflexivity.
Qed.

Lemma check_spec_witness :
  (heap s_ok !! 0 = Some (Ok (VNum 5))
   /\ Result_check 0 positive VUndefined s_ok = (Ret 0, s_ok))
  /\ (heap s_err !! 0 = Some (Err (VStr "e"))
   /\ Result_check 0 boom VUndefined s_err = (Ret 0, s_err)).
Proof.
  assert (H1 : heap s_ok !! 0 = Some (Ok (VNum 5))) by reflexivity.
  assert (H2 : heap s_err !! 0 = Some (Err (VStr "e"))) by reflexivity.
  split.
  - split; [exact H1|]. exact (check_spec 0 _ positive VUndefined s_ok H1).
  - split; [exact H2|]. exact (check_spec 0 _ boom VUndefined s_err H2).
Defined.

(** ** C6: FromTryCatch *)

(** C6, as stated, fails at [undefined]: when [fn] throws [undefined] the
    failure holds the empty sentinel, not the thrown value, and when [fn]
    returns [undefined] the success holds the empty sentinel. *)
Lemma FromTryCatch_undefined :
  designated (Result_FromTryCatch throws_undefined None s0)
    = Some (Err EMPTY)
  /\ designated (Result_FromTryCatch throws_undefined None s0)
    <> Some (Err VUndefined)
  /\ designated (Result_FromTryCatch returns_undefined None s0)
    <> Some (Ok VUndefined).
Proof. repeat split; vm_compute; congruence. Qed.

(** C6 (amended): [FromTryCatch(fn, mapper?)] runs [fn] and wraps its return
    value in a new success, the empty sentinel standing for a return value
    [undefined]; if [fn] throws [t], it returns instead a new failure holding
    [t], or [mapper(t)] when a mapper is supplied, the empty sentinel again
    standing for [undefined]; an exception thrown by [mapper] leaves the
    call.  So [FromTryCatch(() => 42)] yields [Ok(42)] and
    [FromTryCatch(() => { throw "boom" })] yields [Err("boom")]. *)
Theorem FromTryCatch_spec (fn : js value) (mapper : option Mapper) s :
  Result_FromTryCatch fn mapper s =
    match fn s with
    | (Ret v, s1) =>
        (Ret (length (heap s1)),
         State (heap s1 ++ [Ok (if is_undefined v then EMPTY else v)])
               (log s1))
    | (Throw t, s1) =>
        match mapper with
        | None =>
            (Ret (length (heap s1)),
             State (heap s1 ++ [Err (if is_undefined t then EMPTY else t)])
                   (log s1))
        | Some mapper =>
            match mapper t s1 with
            | (Ret x, s2) =>
                (Ret (length (heap s2)),
                 State (heap s2
                          ++ [Err (if is_undefined x then EMPTY else x)])
                       (log s2))
            | (Throw u, s2) => (Throw u, s2)
            end
        end
    end
  /\ designated (Result_FromTryCatch returns_42 None s0)
     = Some (Ok (VNum 42))
  /\ designated (Result_FromTryCatch throws_boom None s0)
     = Some (Err (VStr "boom"))
  /\ designated (Result_FromTryCatch throws_boom (Some add_bang) s0)
     = Some (Err (VStr "boom!")).
Proof.
  split; [|repeat split].
  unfold Result_FromTryCatch, try_catch, bind.
  destruct (fn s) as [[v|t] s1].
  - now rewrite Result_Ok_spec.
  - destruct mapper as [m|]; [|now rewrite Result_Err_spec].
    destruct (m t s1) as [[x|u] s2]; [|reflexivity].
    now rewrite Result_Err_spec.
Qed.

(** ** C7: or, orIf *)

(** C7: [r.or(alt)] returns [r] itself when [r] is a success, and when [r]
    is a failure with payload [e] it returns [alt], or [alt(e)] when [alt] is
    a function; [r.orIf(p, alt)] does the same except that on a failure the
    alternative is used only when [p(e)] holds, and [r] itself is returned
    otherwise. *)
Theorem or_orIf_spec this o other (predicate : Predicate) s :
  heap s !! this = Some o ->
  preserves_heap predicate ->
  Result_or this other s =
    match o with
    | Ok _ => (Ret this, s)
    | Err e =>
        match other with
        | AltResult alt => (Ret alt, s)
        | AltFunction alt => alt e s
        end
    end
  /\ Result_orIf this predicate other s =
    match o with
    | Ok _ => (Ret this, s)
    | Err e =>
        match predicate e s with
        | (Ret true, s') =>
            match other with
            | AltResult alt => (Ret alt, s')
            | AltFunction alt => alt e s'
            end
        | (Ret false, s') => (Ret this, s')
        | (Throw t, s') => (Throw t, s')
        end
    end.
Proof.
  intros Ho Hp. split.
  - destruct o as [v|e], other as [alt|alt]; js_run; reflexivity.
  - destruct o as [v|e]; [js_run; reflexivity|].
    pose proof (Hp e s) as Hext.
    destruct (predicate e s) as [[[|]|t] s'] eqn:E; cbn [snd] in Hext;
      destruct other as [alt|alt]; js_run; rewrite E; try reflexivity.
    now rewrite (extends_lookup _ _ _ _ Hext Ho).
Qed.

Lemma or_orIf_spec_witness :
  heap s_err !! 0 = Some (Err (VStr "e"))
  /\ preserves_heap positive
  /\ Result_or 0 (AltFunction Result_Ok) s_err =
       (Ret 1, State [Err (VStr "e"); Ok (VStr "e")] [])
  /\ Result_orIf 0 positive (AltFunction Result_Ok) s_err = (Ret 0, s_err).
Proof.
  assert (H1 : heap s_err !! 0 = Some (Err (VStr "e"))) by reflexivity.
  assert (H2 : preserves_heap positive)
    by (intros a s; apply extends_refl).
  split; [exact H1|]. split; [exact H2|].
  exact (or_orIf_spec 0 _ (AltFunction Result_Ok) positive s_err H1 H2).
Defined.

(** ** C8: unfold *)

(** C8: [unfold()] flattens exactly one level: on a success whose payload is
    itself a Result it returns that inner Result, whatever the inner Result
    holds, and on a failure or a success whose payload is not a Result it
    returns the receiver itself; nothing is created or changed. *)
Theorem unfold_spec this o s :
  heap s !! this = Some o ->
  Result_unfold this s =
    (Ret (match o with Ok (VRes inner) => inner | _ => this end), s).
Proof.
  intros Ho. destruct o as [v|e]; js_run;
    cbn [instanceof_Ok instanceof_Err orb]; js_run; try reflexivity.
  destruct v; reflexivity.
Qed.

Lemma unfold_spec_witness :
  heap s_nested !! 1 = Some (Ok (VRes 0))
  /\ nested_unfold s0 = (Ret 0, s_nested)
  /\ heap s_nested !! 0 = Some (Ok (VNum 5))
  /\ flat_unfold s0 = (Ret 0, s_ok).
Proof.
  assert (H1 : heap s_nested !! 1 = Some (Ok (VRes 0))) by reflexivity.
  assert (H0 : heap s_ok !! 0 = Some (Ok (VNum 5))) by reflexivity.
  split; [exact H1|]. split; [exact (unfold_spec 1 _ s_nested H1)|].
  split; [reflexivity|]. exact (unfold_spec 0 _ s_ok H0).
Defined.

(** One level only: [Ok(Ok(Ok(5))).unfold()] is the [Ok(Ok(5))] that the
    receiver held, itself still nested. *)
Example twice_nested_unfold_once :
  designated (twice_nested_unfold s0) = Some (Ok (VRes 0))
  /\ designated (nested_unfold s0) = Some (Ok (VNum 5)).
Proof. split; reflexivity. Qed.

(** ** C9: onOk, onErr *)

(** C9, as stated, fails for an effect that throws: [Ok(5).onOk(boom)] does
    not return the receiver, the exception leaves [onOk]; and likewise
    [Err("e").onErr(boom)]. *)
Lemma onOk_throwing_effect :
  onOk 0 boom s_ok = (Throw (VStr "boom"), s_ok)
  /\ fst (onOk 0 boom s_ok) <> Ret 0
  /\ fst (onErr 0 boom s_err) <> Ret 0.
Proof. repeat split; vm_compute; congruence. Qed.

(** C9 (amended): [onOk(effect)] and [onErr(effect)] call the effect, once
    and with the payload, exactly when the matching variant is active (on the
    other variant the state is left as it was, whatever the effect is), and
    they return the receiver itself whenever the effect returns, whatever
    value it returns; an exception thrown by the effect leaves the method. *)
Theorem onOk_onErr_spec this o (effect : Mapper) s :
  heap s !! this = Some o ->
  onOk this effect s =
    match o with
    | Ok v =>
        match effect v s with
        | (Ret _, s') => (Ret this, s')
        | (Throw t, s') => (Throw t, s')
        end
    | Err _ => (Ret this, s)
    end
  /\ onErr this effect s =
    match o with
    | Err e =>
        match effect e s with
        | (Ret _, s') => (Ret this, s')
        | (Throw t, s') => (Throw t, s')
        end
    | Ok _ => (Ret this, s)
    end.
Proof.
  intros Ho. destruct o as [v|e]; split; js_run; reflexivity.
Qed.

Lemma onOk_onErr_spec_witness :
  heap s_ok !! 0 = Some (Ok (VNum 5))
  /\ onOk 0 record s_ok = (Ret 0, State [Ok (VNum 5)] [VNum 5])
  /\ onErr 0 record s_ok = (Ret 0, s_ok).
Proof.
  assert (H1 : heap s_ok !! 0 = Some (Ok (VNum 5))) by reflexivity.
  split; [exact H1|]. exact (onOk_onErr_spec 0 _ record s_ok H1).
Defined.

(** ** C10: immutability *)

Ltac js_frame_call :=
  match goal with
  | Hf : preserves_heap ?f |- context [?f ?a ?s] =>
      let X := fresh "Hext" in
      let E := fresh "E" in
      destruct (f a s) as [[?|?] ?] eqn:E;
      pose proof (Hf a s) as X; rewrite E in X; cbn [snd] in X
  | X : extends ?s ?s', H : heap ?s !! ?l = Some ?o
    |- context [heap ?s' !! ?l] =>
      rewrite (extends_lookup s s' l o X H)
  end.

Ltac js_frame :=
  repeat (first
    [ js_frame_call | js_step | progress unfold_methods
    | progress (cbn beta iota delta
                 [instanceof_Ok instanceof_Err orb negb stored is_undefined])
    | js_case ]).

Lemma frame_intro s s' this o :
  heap s !! this = Some o ->
  extends s s' ->
  extends s s' /\ heap s' !! this = Some o.
Proof. intros Ho He. split; [exact He|]. now apply (extends_lookup s s'). Qed.

Lemma invoke_frame m this o s :
  heap s !! this = Some o ->
  callbacks (@preserves_heap) m ->
  extends s (snd (invoke m this s))
  /\ heap (snd (invoke m this s)) !! this = Some o.
Proof.
  intros Ho Hcb. apply frame_intro; [exact Ho|].
  destruct m, o; cbn [callbacks alternative_ok] in Hcb;
    try match goal with o : alternative |- _ => destruct o end;
    cbn [alternative_ok] in Hcb;
    try match type of Hcb with _ /\ _ => destruct Hcb as [Hp Hf] end;
    js_frame; cbn [snd];
    eauto 6 using extends_refl, extends_alloc, extends_trans.
Qed.

Lemma Ok_map_fresh this v (mapper : Mapper) s r s' :
  heap s !! this = Some (Ok v) ->
  preserves_heap mapper ->
  map this mapper s = (Ret r, s') ->
  fresh_for s r /\ exists x, heap s' !! r = Some (Ok x).
Proof.
  intros Ho Hm. unfold map. rewrite (dispatch_Ok _ _ _ _ _ Ho).
  unfold Ok_map, bind. pose proof (Hm v s) as Hext.
  destruct (mapper v s) as [[x|t] s1]; [|discriminate].
  rewrite Result_Ok_spec. intros [= <- <-]. cbn [snd] in Hext. split.
  - unfold fresh_for. now apply prefix_length.
  - exists (stored x). apply lookup_alloc.
Qed.

Lemma Err_refine_fresh this e (mapper : Mapper) s r s' :
  heap s !! this = Some (Err e) ->
  preserves_heap mapper ->
  refine this mapper s = (Ret r, s') ->
  fresh_for s r /\ exists x, heap s' !! r = Some (Err x).
Proof.
  intros Ho Hm. unfold refine. rewrite (dispatch_Err _ _ _ _ _ Ho).
  unfold Err_refine, bind. pose proof (Hm e s) as Hext.
  destruct (mapper e s) as [[x|t] s1]; [|discriminate].
  rewrite Result_Err_spec. intros [= <- <-]. cbn [snd] in Hext. split.
  - unfold fresh_for. now apply prefix_length.
  - exists (stored x). apply lookup_alloc.
Qed.

(** C10, as stated, fails where a combinator has nothing to change:
    [Err("e").map(f)] creates no instance and returns the receiver itself,
    a reference that existed before the call. *)
Lemma map_on_Err_returns_the_receiver :
  map 0 (pure to_undefined) s_err = (Ret 0, s_err)
  /\ ~ fresh_for s_err 0.
Proof. split; [reflexivity|]. unfold fresh_for. cbn. lia. Qed.

(** C10 (amended): every Result is immutable: no method call, whatever its
    callbacks do short of writing to existing instances, changes the variant
    or the payload of the receiver or of any other existing instance.  A
    combinator returns a new instance where it transforms the payload ([map]
    on a success, [refine] on a failure), and the receiver itself where it
    has nothing to change: [map], [chain], [check], [assert], [unfold] and
    [onOk] on a failure, [refine], [or], [orIf] and [onErr] on a success. *)
Theorem results_are_immutable :
  (forall m this o s,
      heap s !! this = Some o ->
      callbacks (@preserves_heap) m ->
      extends s (snd (invoke m this s))
      /\ heap (snd (invoke m this s)) !! this = Some o)
  /\ (forall this e s (mapper effect : Mapper) (f : Chainer)
             (p : Predicate) error,
      heap s !! this = Some (Err e) ->
      map this mapper s = (Ret this, s)
      /\ chain this f s = (Ret this, s)
      /\ Result_check this p error s = (Ret this, s)
      /\ Result_assert this p error s = (Ret this, s)
      /\ Result_unfold this s = (Ret this, s)
      /\ onOk this effect s = (Ret this, s))
  /\ (forall this v s (mapper effect : Mapper) (p : Predicate) other,
      heap s !! this = Some (Ok v) ->
      refine this mapper s = (Ret this, s)
      /\ Result_or this other s = (Ret this, s)
      /\ Result_orIf this p other s = (Ret this, s)
      /\ onErr this effect s = (Ret this, s))
  /\ (forall this v (mapper : Mapper) s r s',
      heap s !! this = Some (Ok v) ->
      preserves_heap mapper ->
      map this mapper s = (Ret r, s') ->
      fresh_for s r /\ exists x, heap s' !! r = Some (Ok x))
  /\ (forall this e (mapper : Mapper) s r s',
      heap s !! this = Some (Err e) ->
      preserves_heap mapper ->
      refine this mapper s = (Ret r, s') ->
      fresh_for s r /\ exists x, heap s' !! r = Some (Err x)).
Proof.
  split; [exact invoke_frame|].
  split; [|split; [|split; [exact Ok_map_fresh|exact Err_refine_fresh]]].
  - intros this e s mapper effect f p error Ho.
    repeat split; js_run;
      cbn [instanceof_Ok instanceof_Err orb]; js_run; reflexivity.
  - intros this v s mapper effect p other Ho.
    repeat split; js_run; reflexivity.
Qed.

Lemma results_are_immutable_witness :
  heap s_ok !! 0 = Some (Ok (VNum 5))
  /\ callbacks (@preserves_heap) (m_chain Err_if_undefined)
  /\ extends s_ok (snd (invoke (m_chain Err_if_undefined) 0 s_ok))
  /\ heap (snd (invoke (m_chain Err_if_undefined) 0 s_ok)) !! 0
     = Some (Ok (VNum 5)).
Proof.
  pose proof results_are_immutable as (Hframe & _).
  assert (H1 : heap s_ok !! 0 = Some (Ok (VNum 5))) by reflexivity.
  assert (H2 : callbacks (@preserves_heap) (m_chain Err_if_undefined)).
  { intros a s. unfold Err_if_undefined.
    destruct (is_undefined a);
      [rewrite Result_Err_spec|rewrite Result_Ok_spec]; apply extends_alloc. }
  split; [exact H1|]. split; [exact H2|].
  exact (Hframe (m_chain Err_if_undefined) 0 _ s_ok H1 H2).
Defined.

(** [unfold] on a known receiver; the lemma that the compositions use. *)
Lemma Result_unfold_known this o s :
  heap s !! this = Some o ->
  Result_unfold this s =
    (Ret (match o with Ok (VRes inner) => inner | _ => this end), s).
Proof.
  intros Ho. destruct o as [v|e]; js_run;
    cbn [instanceof_Ok instanceof_Err orb]; js_run; try reflexivity.
  destruct v; reflexivity.
Qed.

Lemma unfold_spec_of_alloc (h : list instance) l' o :
  Result_unfold (length h) (State (h ++ [o]) l') =
    (Ret (match o with Ok (VRes inner) => inner | _ => length h end),
     State (h ++ [o]) l').
Proof. apply Result_unfold_known. apply lookup_alloc. Qed.

Lemma map_known this o (mapper : Mapper) s :
  heap s !! this = Some o ->
  map this mapper s =
    match o with
    | Ok v =>
        match mapper v s with
        | (Ret x, s') =>
            (Ret (length (heap s')),
             State (heap s' ++ [Ok (if is_undefined x then EMPTY else x)])
                   (log s'))
        | (Throw t, s') => (Throw t, s')
        end
    | Err _ => (Ret this, s)
    end.
Proof.
  intros Ho. destruct o as [v|e]; [|js_run; reflexivity].
  unfold map. rewrite (dispatch_Ok _ _ _ _ _ Ho). unfold Ok_map, bind.
  destruct (mapper v s) as [[x|t] s']; [|reflexivity].
  now rewrite Result_Ok_spec.
Qed.

Lemma refine_known this o (mapper : Mapper) s :
  heap s !! this = Some o ->
  refine this mapper s =
    match o with
    | Err e =>
        match mapper e s with
        | (Ret x, s') =>
            (Ret (length (heap s')),
             State (heap s' ++ [Err (if is_undefined x then EMPTY else x)])
                   (log s'))
        | (Throw t, s') => (Throw t, s')
        end
    | Ok _ => (Ret this, s)
    end.
Proof.
  intros Ho. destruct o as [v|e]; [js_run; reflexivity|].
  unfold refine. rewrite (dispatch_Err _ _ _ _ _ Ho). unfold Err_refine, bind.
  destruct (mapper e s) as [[x|t] s']; [|reflexivity].
  now rewrite Result_Err_spec.
Qed.

Lemma check_known this o (p : Predicate) error s :
  heap s !! this = Some o ->
  Result_check this p error s =
    match o with
    | Err _ => (Ret this, s)
    | Ok v =>
        match p v s with
        | (Ret true, s') => (Ret this, s')
        | (Ret false, s') =>
            (Ret (length (heap s')),
             State (heap s' ++ [Err (stored error)]) (log s'))
        | (Throw t, s') => (Throw t, s')
        end
    end.
Proof.
  intros Ho. destruct o as [v|e]; [|js_run; reflexivity].
  js_run. destruct (p v s) as [[[|]|t] s']; try reflexivity.
  destruct error; reflexivity.
Qed.

Lemma assert_is_check this (g : Assertion) error :
  Result_assert this g error = Result_check this g error.
Proof. reflexivity. Qed.


Lemma onOk_known this o (f : Mapper) s :
  heap s !! this = Some o ->
  onOk this f s =
    match o with
    | Ok v =>
        match f v s with
        | (Ret _, s') => (Ret this, s')
        | (Throw t, s') => (Throw t, s')
        end
    | Err _ => (Ret this, s)
    end.
Proof. intros Ho. destruct o; js_run; reflexivity. Qed.

Lemma onErr_known this o (g : Mapper) s :
  heap s !! this = Some o ->
  onErr this g s =
    match o with
    | Err e =>
        match g e s with
        | (Ret _, s') => (Ret this, s')
        | (Throw t, s') => (Throw t, s')
        end
    | Ok _ => (Ret this, s)
    end.
Proof. intros Ho. destruct o; js_run; reflexivity. Qed.

(** ** Further properties of the methods *)

(** X1: the guards protect extraction.  On every Result [isOk()] and
    [isErr()] answer with opposite booleans and change nothing; when
    [isOk()] answers [true], [take()] returns the payload and [takeErr()]
    throws [Result.ERROR.takeErr]; when it answers [false], [takeErr()]
    returns the payload and [take()] throws [Result.ERROR.take]. *)
Theorem guarded_extraction this o s :
  heap s !! this = Some o ->
  exists b,
    isOk this s = (Ret b, s)
    /\ isErr this s = (Ret (negb b), s)
    /\ if b
       then take this s = (Ret (payload o), s)
            /\ takeErr this s = (Throw Result_ERROR_takeErr, s)
       else takeErr this s = (Ret (payload o), s)
            /\ take this s = (Throw Result_ERROR_take, s).
Proof.
  intros Ho. destruct o as [v|e].
  - exists true. repeat split; js_run; reflexivity.
  - exists false. repeat split; js_run; reflexivity.
Qed.

Lemma guarded_extraction_witness :
  heap s_err !! 0 = Some (Err (VStr "e"))
  /\ exists b,
    isOk 0 s_err = (Ret b, s_err)
    /\ isErr 0 s_err = (Ret (negb b), s_err)
    /\ if b
       then take 0 s_err = (Ret (VStr "e"), s_err)
            /\ takeErr 0 s_err = (Throw Result_ERROR_takeErr, s_err)
       else takeErr 0 s_err = (Ret (VStr "e"), s_err)
            /\ take 0 s_err = (Throw Result_ERROR_take, s_err).
Proof.
  assert (H : heap s_err !! 0 = Some (Err (VStr "e"))) by reflexivity.
  split; [exact H|]. exact (guarded_extraction 0 _ s_err H).
Defined.

(** X2: [map(mapper)] on a success holding [v] calls [mapper(v)] once and
    returns a new success holding what it returned, the empty sentinel
    standing for [undefined]; an exception of the mapper leaves [map]; on a
    failure [map] returns the receiver itself and does not call the
    mapper. *)
Theorem map_spec this o (mapper : Mapper) s :
  heap s !! this = Some o ->
  map this mapper s =
    match o with
    | Ok v =>
        match mapper v s with
        | (Ret x, s') =>
            (Ret (length (heap s')),
             State (heap s' ++ [Ok (if is_undefined x then EMPTY else x)])
                   (log s'))
        | (Throw t, s') => (Throw t, s')
        end
    | Err _ => (Ret this, s)
    end.
Proof.
  intros Ho. destruct o as [v|e].
  - unfold map. rewrite (dispatch_Ok _ _ _ _ _ Ho). unfold Ok_map, bind.
    destruct (mapper v s) as [[x|t] s']; [|reflexivity].
    rewrite Result_Ok_spec. reflexivity.
  - unfold map. rewrite (dispatch_Err _ _ _ _ _ Ho). reflexivity.
Qed.

Lemma map_spec_witness :
  heap s_ok !! 0 = Some (Ok (VNum 5))
  /\ map 0 (pure tell_undefined) s_ok =
       (Ret 1, State [Ok (VNum 5); Ok (VNum 2)] [])
  /\ map 0 boom s_ok = (Throw (VStr "boom"), s_ok).
Proof.
  assert (H : heap s_ok !! 0 = Some (Ok (VNum 5))) by reflexivity.
  split; [exact H|]. split.
  - exact (map_spec 0 _ (pure tell_undefined) s_ok H).
  - exact (map_spec 0 _ boom s_ok H).
Defined.

(** X3: [refine(mapper)] mirrors [map] on the other variant: on a failure
    holding [e] it calls [mapper(e)] once and returns a new failure holding
    what it returned, the empty sentinel standing for [undefined]; on a
    success it returns the receiver itself and does not call the mapper. *)
Theorem refine_spec this o (mapper : Mapper) s :
  heap s !! this = Some o ->
  refine this mapper s =
    match o with
    | Err e =>
        match mapper e s with
        | (Ret x, s') =>
            (Ret (length (heap s')),
             State (heap s' ++ [Err (if is_undefined x then EMPTY else x)])
                   (log s'))
        | (Throw t, s') => (Throw t, s')
        end
    | Ok _ => (Ret this, s)
    end.
Proof.
  intros Ho. destruct o as [v|e].
  - unfold refine. rewrite (dispatch_Ok _ _ _ _ _ Ho). reflexivity.
  - unfold refine. rewrite (dispatch_Err _ _ _ _ _ Ho).
    unfold Err_refine, bind.
    destruct (mapper e s) as [[x|t] s']; [|reflexivity].
    rewrite Result_Err_spec. reflexivity.
Qed.

Lemma refine_spec_witness :
  heap s_err !! 0 = Some (Err (VStr "e"))
  /\ refine 0 add_bang s_err =
       (Ret 1, State [Err (VStr "e"); Err (VStr "e!")] [])
  /\ heap s_ok !! 0 = Some (Ok (VNum 5))
  /\ refine 0 boom s_ok = (Ret 0, s_ok).
Proof.
  assert (H1 : heap s_err !! 0 = Some (Err (VStr "e"))) by reflexivity.
  assert (H2 : heap s_ok !! 0 = Some (Ok (VNum 5))) by reflexivity.
  split; [exact H1|]. split; [exact (refine_spec 0 _ add_bang s_err H1)|].
  split; [exact H2|]. exact (refine_spec 0 _ boom s_ok H2).
Defined.

(** X4: the identity law of [map].  For every Result [r] that is not a
    success holding [undefined], [r.map(x => x)] is observably equivalent to
    [r]: the same variant with the same payload. *)
Theorem map_identity this o s :
  heap s !! this = Some o ->
  o <> Ok VUndefined ->
  equivalent (map this identity s) (Ret this, s).
Proof.
  intros Ho Hne. destruct o as [v|e].
  - assert (Hv : v <> VUndefined) by congruence.
    unfold map. rewrite (dispatch_Ok _ _ _ _ _ Ho).
    unfold Ok_map, identity, bind, ret.
    rewrite Result_Ok_spec, (stored_defined _ Hv).
    exists (Ok v). split; [apply lookup_alloc|exact Ho].
  - js_run. exists (Err e). split; exact Ho.
Qed.

Lemma map_identity_witness :
  heap s_ok !! 0 = Some (Ok (VNum 5))
  /\ Ok (VNum 5) <> Ok VUndefined
  /\ equivalent (map 0 identity s_ok) (Ret 0, s_ok).
Proof.
  assert (H1 : heap s_ok !! 0 = Some (Ok (VNum 5))) by reflexivity.
  assert (H2 : Ok (VNum 5) <> Ok VUndefined) by discriminate.
  split; [exact H1|]. split; [exact H2|].
  exact (map_identity 0 _ s_ok H1 H2).
Defined.

(** X5: [map] and [refine] commute.  For every Result and all mappers [f]
    and [g], whatever they do, [r.map(f).refine(g)] and [r.refine(g).map(f)]
    return the same reference in the same state: only the mapper of the
    active variant is called, once. *)
Theorem map_refine_commute this o (f g : Mapper) s :
  heap s !! this = Some o ->
  map_then_refine this f g s = refine_then_map this f g s.
Proof.
  intros Ho. unfold map_then_refine, refine_then_map, bind.
  rewrite (map_known _ _ f _ Ho), (refine_known _ _ g _ Ho).
  destruct o as [v|e].
  - rewrite (map_known _ _ f _ Ho).
    destruct (f v s) as [[x|t] s']; [|reflexivity].
    erewrite refine_known by apply lookup_alloc. reflexivity.
  - rewrite (refine_known _ _ g _ Ho).
    destruct (g e s) as [[x|t] s']; [|reflexivity].
    erewrite map_known by apply lookup_alloc. reflexivity.
Qed.

Lemma map_refine_commute_witness :
  heap s_err !! 0 = Some (Err (VStr "e"))
  /\ map_then_refine 0 boom add_bang s_err
     = refine_then_map 0 boom add_bang s_err.
Proof.
  assert (H : heap s_err !! 0 = Some (Err (VStr "e"))) by reflexivity.
  split; [exact H|]. exact (map_refine_commute 0 _ boom add_bang s_err H).
Defined.

(** X6: [chain] is [map] followed by [unfold].  For every Result and every
    function [f] returning a Result, [r.chain(f)] and [r.map(f).unfold()]
    return the same reference in the same state, and throw the same when [f]
    throws. *)
Theorem chain_is_map_then_unfold this o (f : Chainer) s :
  heap s !! this = Some o ->
  chain this f s = map_then_unfold this f s.
Proof.
  intros Ho. unfold map_then_unfold, bind. destruct o as [v|e].
  - unfold chain, map. rewrite !(dispatch_Ok _ _ _ _ _ Ho).
    unfold Ok_chain, Ok_map, as_value, bind, ret.
    now destruct (f v s) as [[r|t] s'].
  - rewrite (Err_chain_spec _ _ _ _ Ho), (map_known _ _ _ _ Ho).
    js_run. cbn [instanceof_Ok instanceof_Err orb]. js_run. reflexivity.
Qed.

Lemma chain_is_map_then_unfold_witness :
  heap s_ok !! 0 = Some (Ok (VNum 5))
  /\ chain 0 Err_if_undefined s_ok = map_then_unfold 0 Err_if_undefined s_ok.
Proof.
  assert (H : heap s_ok !! 0 = Some (Ok (VNum 5))) by reflexivity.
  split; [exact H|].
  exact (chain_is_map_then_unfold 0 _ Err_if_undefined s_ok H).
Defined.

(** X7: wrapping and unfolding.  [Result.Ok(x).unfold()] gives back [x]
    itself when [x] is a Result, so a Result survives being wrapped and
    unfolded, and gives the new success that holds [x] (the empty sentinel
    for [undefined]) when [x] is anything else. *)
Theorem wrap_then_unfold_spec (x : value) s :
  wrap_then_unfold x s =
    (Ret (match x with VRes r => r | _ => length (heap s) end),
     State (heap s ++ [Ok (stored x)]) (log s)).
Proof.
  unfold wrap_then_unfold, bind. rewrite Result_Ok_spec.
  erewrite unfold_spec_of_alloc. destruct x; reflexivity.
Qed.

(** X8: two checks in a row are one check of the conjunction.  For every
    Result, predicates [p] and [q] and error [e],
    [r.check(p, e).check(q, e)] and [r.check(x => p(x) && q(x), e)] return
    the same reference in the same state ([q] is not called once [p] has
    failed), as long as [p] leaves the existing instances alone. *)
Theorem check_conjunction this o (p q : Predicate) error s :
  heap s !! this = Some o ->
  preserves_heap p ->
  check_then_check this p q error s
  = Result_check this (and_then p q) error s.
Proof.
  intros Ho Hp. unfold check_then_check, bind.
  rewrite (check_known _ _ p _ _ Ho), (check_known _ _ (and_then p q) _ _ Ho).
  destruct o as [v|e]; [|now rewrite (check_known _ _ q _ _ Ho)].
  unfold and_then, bind. pose proof (Hp v s) as Hext.
  destruct (p v s) as [[[|]|t] s1]; cbn [snd] in Hext; [| |reflexivity].
  - rewrite (check_known _ _ q _ _ (extends_lookup _ _ _ _ Hext Ho)).
    now destruct (q v s1) as [[[|]|t] s2].
  - unfold ret. erewrite check_known by apply lookup_alloc. reflexivity.
Qed.

Lemma check_conjunction_witness :
  heap s_ok !! 0 = Some (Ok (VNum 5))
  /\ preserves_heap positive
  /\ check_then_check 0 positive (always false) (VStr "no") s_ok
     = Result_check 0 (and_then positive (always false)) (VStr "no") s_ok.
Proof.
  assert (H1 : heap s_ok !! 0 = Some (Ok (VNum 5))) by reflexivity.
  assert (H2 : preserves_heap positive)
    by (intros a s; apply extends_refl).
  split; [exact H1|]. split; [exact H2|].
  exact (check_conjunction 0 _ positive (always false) (VStr "no") s_ok H1 H2).
Defined.

(** X9: [check] and [assert] let no success through that fails the test.
    When [r.check(p, e)], or [r.assert(p, e)], returns a success, that
    success is the receiver itself and [p] was called on its payload and
    returned [true]; [p] is assumed to leave the existing instances
    alone. *)
Theorem check_lets_only_passing_successes_through
    this o (p : Predicate) error s r s' v :
  heap s !! this = Some o ->
  preserves_heap p ->
  Result_check this p error s = (Ret r, s')
  \/ Result_assert this p error s = (Ret r, s') ->
  heap s' !! r = Some (Ok v) ->
  r = this /\ o = Ok v /\ p v s = (Ret true, s').
Proof.
  intros Ho Hp Hrun Hr.
  assert (Hc : Result_check this p error s = (Ret r, s'))
    by (destruct Hrun as [H|H]; [exact H|now rewrite <- assert_is_check]).
  clear Hrun. rewrite (check_known _ _ p _ _ Ho) in Hc.
  destruct o as [v0|e].
  - pose proof (Hp v0 s) as Hext.
    destruct (p v0 s) as [[[|]|t] s1] eqn:E; cbn [snd] in Hext;
      [| |discriminate].
    + injection Hc as <- <-.
      rewrite (extends_lookup _ _ _ _ Hext Ho) in Hr.
      injection Hr as <-. repeat split. exact E.
    + injection Hc as <- <-. cbn [heap] in Hr.
      rewrite lookup_alloc in Hr. discriminate.
  - injection Hc as <- <-. congruence.
Qed.

Lemma check_lets_only_passing_successes_through_witness :
  heap s_ok !! 0 = Some (Ok (VNum 5))
  /\ preserves_heap positive
  /\ Result_check 0 positive VUndefined s_ok = (Ret 0, s_ok)
  /\ positive (VNum 5) s_ok = (Ret true, s_ok).
Proof.
  assert (H1 : heap s_ok !! 0 = Some (Ok (VNum 5))) by reflexivity.
  assert (H2 : preserves_heap positive)
    by (intros a s; apply extends_refl).
  assert (H3 : Result_check 0 positive VUndefined s_ok = (Ret 0, s_ok))
    by reflexivity.
  split; [exact H1|]. split; [exact H2|]. split; [exact H3|].
  exact (proj2 (proj2
    (check_lets_only_passing_successes_through
       0 _ positive VUndefined s_ok 0 s_ok (VNum 5) H1 H2 (or_introl H3) H1))).
Defined.



(** X11: [orIf] with a predicate that always holds is [or], and with a
    predicate that never holds it returns the receiver itself, whatever the
    alternative is. *)
Theorem orIf_with_constant_predicate this o other s :
  heap s !! this = Some o ->
  Result_orIf this (always true) other s = Result_or this other s
  /\ Result_orIf this (always false) other s = (Ret this, s).
Proof.
  intros Ho. destruct o, other; split; unfold always; js_run; reflexivity.
Qed.

Lemma orIf_with_constant_predicate_witness :
  heap s_err !! 0 = Some (Err (VStr "e"))
  /\ Result_orIf 0 (always true) (AltFunction Result_Ok) s_err
     = Result_or 0 (AltFunction Result_Ok) s_err
  /\ Result_orIf 0 (always false) (AltFunction Result_Ok) s_err
     = (Ret 0, s_err).
Proof.
  assert (H : heap s_err !! 0 = Some (Err (VStr "e"))) by reflexivity.
  split; [exact H|].
  exact (orIf_with_constant_predicate 0 _ (AltFunction Result_Ok) s_err H).
Defined.

(** X12: [r.onOk(f).onErr(g)] runs exactly one of the two effects, the one
    of the active variant, once and on the payload, and returns the receiver
    itself when that effect returns; [f] is assumed to leave the existing
    instances alone. *)
Theorem onOk_then_onErr_runs_one_effect this o (f g : Mapper) s :
  heap s !! this = Some o ->
  preserves_heap f ->
  onOk_then_onErr this f g s =
    match (match o with Ok v => f v s | Err e => g e s end) with
    | (Ret _, s') => (Ret this, s')
    | (Throw t, s') => (Throw t, s')
    end.
Proof.
  intros Ho Hf. unfold onOk_then_onErr, bind.
  rewrite (onOk_known _ _ f _ Ho). destruct o as [v|e].
  - pose proof (Hf v s) as Hext.
    destruct (f v s) as [[x|t] s']; cbn [snd] in Hext; [|reflexivity].
    now rewrite (onErr_known _ _ g _ (extends_lookup _ _ _ _ Hext Ho)).
  - now rewrite (onErr_known _ _ g _ Ho).
Qed.

Lemma onOk_then_onErr_runs_one_effect_witness :
  heap s_err !! 0 = Some (Err (VStr "e"))
  /\ preserves_heap (@boom value value)
  /\ onOk_then_onErr 0 boom record s_err
     = (Ret 0, State [Err (VStr "e")] [VStr "e"]).
Proof.
  assert (H1 : heap s_err !! 0 = Some (Err (VStr "e"))) by reflexivity.
  assert (H2 : preserves_heap (@boom value value))
    by (intros a s; apply extends_refl).
  split; [exact H1|]. split; [exact H2|].
  exact (onOk_then_onErr_runs_one_effect 0 _ boom record s_err H1 H2).
Defined.

(** ** The invariant of the constructors, and the boundary *)

Lemma capture_keeps_defined (body : js loc) (mapper : option Mapper) s :
  runs_defined body ->
  match mapper with Some f => keeps_defined f | None => True end ->
  defined_payloads s ->
  defined_payloads
    (snd (try_catch body
            (fun e =>
               match mapper with
               | Some mapper => let* x := mapper e in Result_Err x
               | None => Result_Err e
               end) s)).
Proof.
  intros Hb Hm Hs. unfold try_catch. pose proof (Hb s Hs) as H1.
  destruct (body s) as [[r|t] s1]; cbn [snd] in H1; [exact H1|].
  destruct mapper as [f|].
  - unfold bind. pose proof (Hm t s1 H1) as H2.
    destruct (f t s1) as [[x|u] s2]; cbn [snd] in H2; [|exact H2].
    rewrite Result_Err_spec. apply defined_alloc; [exact H2|].
    apply stored_not_undefined.
  - rewrite Result_Err_spec. apply defined_alloc; [exact H1|].
    apply stored_not_undefined.
Qed.

Lemma wrap_runs_defined (c : js value) :
  runs_defined c -> runs_defined (let* v := c in Result_Ok v).
Proof.
  intros Hc s Hs. unfold bind. pose proof (Hc s Hs) as H1.
  destruct (c s) as [[v|t] s1]; cbn [snd] in H1; [|exact H1].
  rewrite Result_Ok_spec. apply defined_alloc; [exact H1|].
  apply stored_not_undefined.
Qed.

(** X13: no Result ever holds [undefined].  Starting from a heap in which no
    instance holds [undefined] (the empty heap is one), the constructors,
    every method call, [FromTryCatch] and [FromPromise] lead to such a heap
    again, provided the callbacks they run do. *)
Theorem no_Result_ever_holds_undefined :
  defined_payloads s0
  /\ (forall x s,
        defined_payloads s ->
        defined_payloads (snd (Result_Ok x s))
        /\ defined_payloads (snd (Result_Err x s)))
  /\ (forall m this s,
        callbacks (@keeps_defined) m ->
        defined_payloads s ->
        defined_payloads (snd (invoke m this s)))
  /\ (forall fn mapper s,
        runs_defined fn ->
        match mapper with Some f => keeps_defined f | None => True end ->
        defined_payloads s ->
        defined_payloads (snd (Result_FromTryCatch fn mapper s)))
  /\ (forall promise mapper s,
        match promise with
        | APromise p => runs_defined p
        | AThunk f =>
            runs_defined f
            /\ forall s1 p s2, f s1 = (Ret p, s2) -> runs_defined p
        end ->
        match mapper with Some f => keeps_defined f | None => True end ->
        defined_payloads s ->
        defined_payloads (snd (Result_FromPromise promise mapper s))).
Proof.
  split; [apply Forall_nil_2|].
  split; [intros x s; apply constructors_keep_defined|].
  split; [exact invoke_keeps_defined|]. split.
  - intros fn mapper s Hfn Hm Hs. unfold Result_FromTryCatch.
    apply capture_keeps_defined;
      [now apply wrap_runs_defined|exact Hm|exact Hs].
  - intros promise mapper s Hp Hm Hs. unfold Result_FromPromise.
    apply capture_keeps_defined; [|exact Hm|exact Hs].
    destruct promise as [p|f]; [now apply wrap_runs_defined|].
    destruct Hp as [Hf Hret]. intros s1 Hs1. unfold bind at 1.
    pose proof (Hf s1 Hs1) as H2.
    destruct (f s1) as [[p|t] s2] eqn:E; cbn [snd] in H2; [|exact H2].
    exact (wrap_runs_defined p (Hret s1 p s2 E) s2 H2).
Qed.

Lemma no_Result_ever_holds_undefined_witness :
  callbacks (@keeps_defined) (m_map (pure to_undefined))
  /\ defined_payloads s_ok
  /\ defined_payloads (snd (invoke (m_map (pure to_undefined)) 0 s_ok))
  /\ heap (snd (invoke (m_map (pure to_undefined)) 0 s_ok))
     = [Ok (VNum 5); Ok EMPTY].
Proof.
  pose proof no_Result_ever_holds_undefined as (_ & _ & Hinv & _).
  assert (H1 : callbacks (@keeps_defined) (m_map (pure to_undefined)))
    by (intros a s Hs; exact Hs).
  assert (H2 : defined_payloads s_ok)
    by (apply Forall_singleton; discriminate).
  split; [exact H1|]. split; [exact H2|].
  split; [exact (Hinv _ 0 s_ok H1 H2)|reflexivity].
Defined.

(** X14: what [FromPromise] makes of a promise.  When the promise is
    fulfilled with [v], the returned promise resolves to a new success
    holding [v]; when it is rejected with [t], to a new failure holding [t],
    or [mapper(t)] when a mapper is supplied; the empty sentinel stands for
    [undefined] in each case.  The returned promise is rejected only when
    the mapper throws. *)
Theorem FromPromise_settlement (p : Promise) (mapper : option Mapper) s :
  Result_FromPromise (APromise p) mapper s =
    match p s with
    | (Ret v, s1) =>
        (Ret (length (heap s1)),
         State (heap s1 ++ [Ok (stored v)]) (log s1))
    | (Throw t, s1) =>
        match mapper with
        | None =>
            (Ret (length (heap s1)),
             State (heap s1 ++ [Err (stored t)]) (log s1))
        | Some mapper =>
            match mapper t s1 with
            | (Ret x, s2) =>
                (Ret (length (heap s2)),
                 State (heap s2 ++ [Err (stored x)]) (log s2))
            | (Throw u, s2) => (Throw u, s2)
            end
        end
    end.
Proof.
  unfold Result_FromPromise, try_catch, await, bind.
  destruct (p s) as [[v|t] s1].
  - now rewrite Result_Ok_spec.
  - destruct mapper as [m|]; [|now rewrite Result_Err_spec].
    destruct (m t s1) as [[x|u] s2]; [|reflexivity].
    now rewrite Result_Err_spec.
Qed.

(** X15: a thunk passed to [FromPromise] is called once, at once; the
    promise it returns is treated as a promise passed directly, and an
    exception it throws before returning a promise is captured exactly as a
    rejection with the thrown value. *)
Theorem FromPromise_thunk (f : js Promise) (mapper : option Mapper) s :
  Result_FromPromise (AThunk f) mapper s =
    match f s with
    | (Ret p, s1) => Result_FromPromise (APromise p) mapper s1
    | (Throw t, s1) => Result_FromPromise (APromise (throw t)) mapper s1
    end.
Proof.
  unfold Result_FromPromise, try_catch, await. unfold bind at 1.
  now destruct (f s) as [[p|t] s1].
Qed.

(** X16: [FromPromise] does not reject.  For a promise or a thunk, with no
    mapper or a mapper that returns, the returned promise resolves, and to a
    Result. *)
Theorem FromPromise_never_rejects promise (mapper : option Mapper) s :
  match mapper with Some f => returns_normally f | None => True end ->
  exists r s',
    Result_FromPromise promise mapper s = (Ret r, s')
    /\ is_Some (heap s' !! r).
Proof.
  intros Hm.
  assert (Hcatch : forall t s1, exists r s',
    (match mapper with
     | Some mapper => let* x := mapper t in Result_Err x
     | None => Result_Err t
     end) s1 = (Ret r, s') /\ is_Some (heap s' !! r)).
  { intros t s1. destruct mapper as [m|].
    - unfold bind. destruct (Hm t s1) as (x & s2 & E & _). rewrite E.
      rewrite Result_Err_spec. eexists _, _. split; [reflexivity|].
      cbn [heap]. rewrite lookup_alloc. eauto.
    - rewrite Result_Err_spec. eexists _, _. split; [reflexivity|].
      cbn [heap]. rewrite lookup_alloc. eauto. }
  assert (Hawait : forall (p : Promise) s1, exists r s',
    try_catch (let* v := await p in Result_Ok v)
      (fun e =>
         match mapper with
         | Some mapper => let* x := mapper e in Result_Err x
         | None => Result_Err e
         end) s1 = (Ret r, s') /\ is_Some (heap s' !! r)).
  { intros p s1. unfold try_catch, await. unfold bind at 1.
    destruct (p s1) as [[v|t] s2]; [|apply Hcatch].
    rewrite Result_Ok_spec. eexists _, _. split; [reflexivity|].
    cbn [heap]. rewrite lookup_alloc. eauto. }
  destruct promise as [p|f]; [apply Hawait|].
  unfold Result_FromPromise, try_catch. unfold bind at 1.
  destruct (f s) as [[p|t] s1] eqn:E; [|apply Hcatch].
  exact (Hawait p s1).
Qed.

Lemma FromPromise_never_rejects_witness :
  returns_normally add_bang
  /\ exists r s',
    Result_FromPromise (AThunk boom_thunk) (Some add_bang) s0 = (Ret r, s')
    /\ is_Some (heap s' !! r).
Proof.
  assert (H : returns_normally add_bang).
  { intros a s. eexists _, s. split; [reflexivity|apply extends_refl]. }
  split; [exact H|].
  exact (FromPromise_never_rejects (AThunk boom_thunk) (Some add_bang) s0 H).
Defined.

(** X17: the misuse error can be captured.  [FromTryCatch(() => r.take())]
    never throws: on a success it yields a new success with the same payload
    (the empty sentinel for [undefined]), and on a failure a new failure
    holding [Result.ERROR.take]. *)
Theorem capture_take_spec this o s :
  heap s !! this = Some o ->
  capture_take this s =
    (Ret (length (heap s)),
     State (heap s ++ [match o with
                       | Ok v => Ok (stored v)
                       | Err _ => Err Result_ERROR_take
                       end]) (log s)).
Proof.
  intros Ho. unfold capture_take, Result_FromTryCatch, try_catch, bind.
  destruct o as [v|e].
  - rewrite (take_Ok _ _ _ Ho). now rewrite Result_Ok_spec.
  - rewrite (take_Err _ _ _ Ho). now rewrite Result_Err_spec.
Qed.

Lemma capture_take_spec_witness :
  heap s_err !! 0 = Some (Err (VStr "e"))
  /\ capture_take 0 s_err =
       (Ret 1, State [Err (VStr "e"); Err Result_ERROR_take] []).
Proof.
  assert (H : heap s_err !! 0 = Some (Err (VStr "e"))) by reflexivity.
  split; [exact H|]. exact (capture_take_spec 0 _ s_err H).
Defined.

(** ** Short-circuiting *)

Lemma success_side_on_Err m this e s :
  heap s !! this = Some (Err e) ->
  success_side m = true ->
  invoke m this s = (Ret (VRes this), s).
Proof.
  intros Ho Hm. destruct m; try discriminate Hm; js_run;
    cbn [instanceof_Ok instanceof_Err orb]; js_run; reflexivity.
Qed.

Lemma failure_side_on_Ok m this v s :
  heap s !! this = Some (Ok v) ->
  failure_side m = true ->
  invoke m this s = (Ret (VRes this), s).
Proof.
  intros Ho Hm. destruct m; try discriminate Hm; js_run; reflexivity.
Qed.

(** X18: short-circuiting over a whole pipeline.  A failure passes through
    any sequence of [map], [chain], [check], [assert], [onOk] and [unfold]
    calls untouched: the pipeline returns the receiver itself, calls none of
    the callbacks and changes nothing.  In the same way a success passes
    through any sequence of [refine], [or], [orIf] and [onErr] calls. *)
Theorem pipeline_short_circuits (ms : list method) this o s :
  heap s !! this = Some o ->
  forallb (match o with Err _ => success_side | Ok _ => failure_side end) ms
  = true ->
  pipeline ms this s = (Ret this, s).
Proof.
  intros Ho. induction ms as [|m ms IH]; intros Hms; [reflexivity|].
  cbn [forallb] in Hms. apply andb_prop in Hms as [Hm Hms].
  cbn [pipeline]. unfold bind. destruct o as [v|e].
  - rewrite (failure_side_on_Ok _ _ _ _ Ho Hm). exact (IH Hms).
  - rewrite (success_side_on_Err _ _ _ _ Ho Hm). exact (IH Hms).
Qed.

Lemma pipeline_short_circuits_witness :
  heap s_err !! 0 = Some (Err (VStr "e"))
  /\ pipeline [m_map boom; m_check boom (VStr "no"); m_chain boom; m_unfold;
               m_onOk boom] 0 s_err = (Ret 0, s_err).
Proof.
  assert (H : heap s_err !! 0 = Some (Err (VStr "e"))) by reflexivity.
  split; [exact H|].
  exact (pipeline_short_circuits
           [m_map boom; m_check boom (VStr "no"); m_chain boom; m_unfold;
            m_onOk boom] 0 _ s_err H eq_refl).
Defined.
